(** * The dependencies page of npmx.dev: app/pages/deps/[...path].vue

    A shallow embedding of the script block of the page component (route
    parsing, the conditional dependency fetch, the derived views and the SEO
    strings) and of the [v-if] chain of its template, with the properties
    the specification states about them.

    JavaScript values are modelled as follows: a [string] is a Rocq
    [string]; [string | null] and optional arguments are [option string];
    an array of strings is a [list string]; array indices and lengths are
    [Z], so that the sentinel [-1] of [indexOf] and the arithmetic
    [segments.length - 1] read as in the source. The characters of a
    string are kept abstract as [ascii]: the page inspects only "@" and
    "/", and compares whole segments with the token "v". *)

From Stdlib Require Import ZArith Lia Ascii.
From stdpp Require Import base list strings sorting.

Local Open Scope Z_scope.

(** ** JavaScript primitives used by the page *)

(** Truthiness of a string: only the empty string is falsy. *)
Definition truthy (s : string) : bool :=
  match s with
  | EmptyString => false
  | String _ _ => true
  end.

(** Truthiness of a [string | null | undefined] value. *)
Definition truthy_opt (v : option string) : bool :=
  match v with
  | Some s => truthy s
  | None => false
  end.

(** [Array.prototype.indexOf]: the index of the first element strictly
    equal to [x], scanning from index [k]; [-1] when there is none. *)
Fixpoint indexOf_from (x : string) (l : list string) (k : Z) : Z :=
  match l with
  | [] => -1
  | y :: l' => if String.eqb y x then k else indexOf_from x l' (k + 1)
  end.

Definition indexOf (x : string) (l : list string) : Z := indexOf_from x l 0.

(** Relative index of [Array.prototype.slice]: a negative index counts from
    the end, and the result is clamped to [0 .. len]. *)
Definition relative_index (len i : Z) : Z :=
  if i <? 0 then Z.max (len + i) 0 else Z.min i len.

(** [Array.prototype.slice (start, end)]; [end_ = None] is the call with
    one argument. *)
Definition slice {A : Type} (l : list A) (start : Z) (end_ : option Z) : list A :=
  let len := Z.of_nat (length l) in
  let k := relative_index len start in
  let final := match end_ with
               | Some e => relative_index len e
               | None => len
               end in
  take (Z.to_nat (final - k)) (drop (Z.to_nat k) l).

(** [Array.prototype.join (sep)] on an array of strings. *)
Fixpoint join (sep : string) (l : list string) : string :=
  match l with
  | [] => ""
  | [x] => x
  | x :: (_ :: _) as l' => x +:+ sep +:+ join sep l'
  end.

(** [String.prototype.split (sep)] for a separator of one character: the
    pieces between the occurrences of [c]; the empty string gives [[""]]. *)
Fixpoint split (c : ascii) (s : string) : list string :=
  match s with
  | EmptyString => [EmptyString]
  | String a s' =>
      if Ascii.eqb a c then EmptyString :: split c s'
      else match split c s' with
           | w :: ws => String a w :: ws
           | [] => [String a EmptyString]
           end
  end.

(** [String.prototype.includes] for one character. *)
Fixpoint includes (s : string) (c : ascii) : bool :=
  match s with
  | EmptyString => false
  | String a s' => Ascii.eqb a c || includes s' c
  end.

(** [String.prototype.startsWith]. *)
Fixpoint startsWith (s search : string) : bool :=
  match search with
  | EmptyString => true
  | String c search' =>
      match s with
      | String a s' => Ascii.eqb a c && startsWith s' search'
      | EmptyString => false
      end
  end.

(** ** Route parser *)

Record ParsedRoute := mkParsedRoute {
  packageName : string;
  version : option string
}.

(** [parsedRoute]: [path] is [route.params.path], which is undefined when
    the catch-all parameter is absent. *)
Definition parsedRoute (path : option (list string)) : ParsedRoute :=
  let segments := default [] path in
  let vIndex := indexOf "v" segments in
  if (vIndex =? -1) || (vIndex >=? Z.of_nat (length segments) - 1) then
    {| packageName := join "/" segments; version := None |}
  else
    let packageName := join "/" (slice segments 0 (Some vIndex)) in
    let afterVersion := slice segments (vIndex + 1) None in
    let version := afterVersion !! 0%nat in
    {| packageName := packageName; version := version |}.

(** ** Conditional dependency fetch *)

(** A value interpolated in a template literal: [null] prints as "null". *)
Definition interpolate (v : option string) : string := default "null" v.

(** The request URL handed to [useFetch]. *)
Definition dependenciesUrl (packageName : string) (version : option string) : string :=
  "/api/registry/dependencies/" +:+ packageName +:+ "/v/" +:+ interpolate version.

Record FetchOptions := mkFetchOptions { immediate : bool }.

(** Modelled from the spec: the external fetch layer [useFetch], which is
    not part of the page. Of its behaviour only the [immediate] option is
    modelled: the request for the URL is issued when the page is set up
    exactly when [immediate] is true ("no version => no fetch"). The
    result is the list of requests issued by the setup. *)
Definition useFetch (url : string) (opts : FetchOptions) : list string :=
  if immediate opts then [url] else [].

(** The requests issued by the setup of the page for a route. *)
Definition dependenciesFetch (path : option (list string)) : list string :=
  let r := parsedRoute path in
  useFetch (dependenciesUrl (packageName r) (version r))
           {| immediate := truthy_opt (version r) |}.

(** ** Organization extraction *)

(** The fragment of regular expressions that the page uses: a character
    set is one character or the complement of one character; an expression
    is a set, a greedy repetition [+] of a set, a capturing group, or a
    sequence. *)
Inductive CharSet :=
| CsChar (c : ascii)
| CsNot (c : ascii).

Inductive Regex :=
| RSet (cs : CharSet)
| RPlus (cs : CharSet)
| RGroup (r : Regex)
| RSeq (r1 r2 : Regex).

Definition cs_accepts (cs : CharSet) (a : ascii) : bool :=
  match cs with
  | CsChar c => Ascii.eqb a c
  | CsNot c => negb (Ascii.eqb a c)
  end.

(** Greedy [cs+] by backtracking: consume one accepted character, then
    first try to consume more, and only when that fails continue with [k]. *)
Fixpoint plus_match {R : Type} (cs : CharSet) (s : string)
    (k : string -> option R) : option R :=
  match s with
  | EmptyString => None
  | String a s' =>
      if cs_accepts cs a then
        match plus_match cs s' k with
        | Some r => Some r
        | None => k s'
        end
      else None
  end.

(** The text that was consumed between the input [s] and the rest [s']. *)
Definition consumed (s s' : string) : string :=
  String.substring 0 (String.length s - String.length s') s.

(** Backtracking matcher in continuation-passing style: [k] receives the
    rest of the input and the captures so far (in group order). *)
Fixpoint rmatch (r : Regex) (s : string) (caps : list string)
    (k : string -> list string -> option (list string)) : option (list string) :=
  match r with
  | RSet cs =>
      match s with
      | String a s' => if cs_accepts cs a then k s' caps else None
      | EmptyString => None
      end
  | RPlus cs => plus_match cs s (fun s' => k s' caps)
  | RGroup r1 => rmatch r1 s caps (fun s' caps' => k s' (caps' ++ [consumed s s']))
  | RSeq r1 r2 => rmatch r1 s caps (fun s' caps' => rmatch r2 s' caps' k)
  end.

(** [s.match (/^r/)]: the pattern is anchored at the start and has no
    flags, so the only candidate position is 0. The result is the match
    array: the matched text at index 0, then the captures. *)
Definition match_anchored (r : Regex) (s : string) : option (list string) :=
  rmatch r s [] (fun s' caps => Some (consumed s s' :: caps)).

(** The pattern [/^@([^/]+)\//] without its anchor. *)
Definition org_pattern : Regex :=
  RSeq (RSet (CsChar "@")) (RSeq (RGroup (RPlus (CsNot "/"))) (RSet (CsChar "/"))).

Definition orgName (packageName : string) : option string :=
  let name := packageName in
  if negb (startsWith name "@") then None
  else match match_anchored org_pattern name with
       | Some m => m !! 1%nat
       | None => None
       end.

(** ** Link to the package page *)

Record RouteLocation := mkRouteLocation {
  route_name : string;
  params_package : list string
}.

(** [packageRoute (ver)] in a page whose package name is [packageName];
    [ver = None] is the call without argument (or with [null]). *)
Definition packageRoute (packageName : string) (ver : option string) : RouteLocation :=
  let segments := split "/" packageName in
  let segments :=
    match ver with
    | Some v => if truthy v then segments ++ ["v"; v] else segments
    | None => segments
    end in
  {| route_name := "package"; params_package := segments |}.

(** ** Dependencies response *)

(** Modelled from the spec: the record types of the shared type module
    ([DependencyRecord] and [PackageDependenciesResponse]), which the page
    only imports. The depth tag is kept as a string, as the page compares
    it with the literal "direct". A name-to-version mapping is represented
    by its entries in own-property order, the order in which
    [Object.entries] lists them; the field is optional. *)
Record DependencyRecord := mkDependencyRecord {
  dep_name : string;
  dep_version : string;
  dep_depth : string;
  dep_optional : bool
}.

(** Modelled from the spec: [DependenciesResponse], with the count of
    direct dependencies, the dependency sequence and the optional
    dev-dependency mapping. *)
Record PackageDependenciesResponse := mkResponse {
  resp_direct : Z;
  resp_dependencies : list DependencyRecord;
  resp_devDependencies : option (list (string * string))
}.

(** [directDependencies]: [dependencies] is the payload of the fetch,
    absent until a response has arrived. *)
Definition directDependencies (dependencies : option PackageDependenciesResponse)
    : list DependencyRecord :=
  match dependencies with
  | Some d => filter (fun dep => dep_depth dep = "direct") (resp_dependencies d)
  | None => []
  end.

(** A record whose depth tag is exactly "direct". *)
Definition is_direct (dep : DependencyRecord) : Prop := dep_depth dep = "direct".

(** [Array.prototype.sort (comparefn)], which the language requires to be
    stable, as a stable insertion sort: an element goes in front of the
    first later element that it does not compare greater than. *)
Fixpoint sort_insert {A : Type} (comparefn : A -> A -> Z) (x : A) (l : list A) : list A :=
  match l with
  | [] => [x]
  | y :: l' => if comparefn x y <=? 0 then x :: y :: l' else y :: sort_insert comparefn x l'
  end.

Fixpoint sort {A : Type} (comparefn : A -> A -> Z) (l : list A) : list A :=
  match l with
  | [] => []
  | x :: l' => sort_insert comparefn x (sort comparefn l')
  end.

Section DevDependencies.
(** [String.prototype.localeCompare] depends on the locale of the host:
    it is a parameter of the development. *)
Variable localeCompare : string -> string -> Z.

Definition devDependencies (dependencies : option PackageDependenciesResponse)
    : list (string * string) :=
  match dependencies with
  | Some d =>
      match resp_devDependencies d with
      | Some entries => sort (fun '(a, _) '(b, _) => localeCompare a b) entries
      | None => []
      end
  | None => []
  end.
End DevDependencies.

(** Ascending order of two entries by name under a comparison function:
    the first name does not compare greater than the second. *)
Definition name_le (compare : string -> string -> Z) (e1 e2 : string * string) : Prop :=
  compare e1.1 e2.1 <= 0.

(** A concrete comparison function, by character code, as an instance of
    the parameter. *)
Definition codeCompare (a b : string) : Z :=
  match String.compare a b with
  | Lt => -1
  | Eq => 0
  | Gt => 1
  end.

(** ** SEO strings *)

Definition pageTitle (packageName : string) (version : option string) : string :=
  if truthy packageName && truthy_opt version then
    "Dependencies - " +:+ packageName +:+ "@" +:+ interpolate version +:+ " - npmx"
  else "Dependencies - npmx".

Definition pageDescription (packageName : string) (version : option string) : string :=
  if truthy packageName && truthy_opt version then
    "Browse dependency tree for " +:+ packageName +:+ "@" +:+ interpolate version
  else "Browse package dependencies".

Definition canonicalUrl (packageName : string) (version : option string) : string :=
  if truthy packageName && truthy_opt version then
    "https://npmx.dev/dependencies/" +:+ packageName +:+ "/v/" +:+ interpolate version
  else "https://npmx.dev/dependencies".

(** ** Render state *)

(** Modelled from the spec: the status that the external fetch layer
    exposes for a fetch, "a status in {pending, success, error}". *)
Inductive FetchStatus := pending | success | error.

Inductive RenderState := NoVersion | Loading | FetchError | Content.

(** The [v-if] / [v-else-if] chain of the template below the header: the
    block that is rendered, if any (the chain has no final [v-else]). *)
Definition renderState (version : option string) (dependenciesStatus : FetchStatus)
    (dependencies : option PackageDependenciesResponse) : option RenderState :=
  if negb (truthy_opt version) then Some NoVersion
  else if match dependenciesStatus with pending => true | _ => false end then Some Loading
  else if match dependenciesStatus with error => true | _ => false end then Some FetchError
  else if match dependencies with Some _ => true | None => false end then Some Content
  else None.

(** ** Header of the page *)

(** The rest of a string after its first [n] characters. *)
Fixpoint string_drop (n : nat) (s : string) : string :=
  match n, s with
  | O, _ => s
  | S n', String _ s' => string_drop n' s'
  | S _, EmptyString => EmptyString
  end.

(** [String.prototype.replace (pat, repl)] with a string pattern: only the
    first occurrence of [pat] is replaced. The replacement is inserted as
    it is; the page replaces by the empty string, which has no [$]
    pattern. *)
Fixpoint replace (s pat repl : string) : string :=
  if startsWith s pat then repl +:+ string_drop (String.length pat) s
  else match s with
       | EmptyString => EmptyString
       | String a s' => String a (replace s' pat repl)
       end.

(** The text of the header link is made of two adjacent pieces. The first
    is the span with the scope, rendered when [orgName] is truthy. *)
Definition headerScope (packageName : string) : string :=
  if truthy_opt (orgName packageName)
  then "@" +:+ interpolate (orgName packageName) +:+ "/"
  else "".

(** The second piece is the package name, without its scope when
    [orgName] is truthy. *)
Definition headerName (packageName : string) : string :=
  if truthy_opt (orgName packageName)
  then replace packageName ("@" +:+ interpolate (orgName packageName) +:+ "/") ""
  else packageName.

(** Modelled from the spec: [PackageSummary], the external package
    metadata, of which the page reads [versions] and [dist-tags]; the page
    tests both for presence. *)
Record PackageSummary := mkPackageSummary {
  pkg_versions : option (list string);
  pkg_dist_tags : option (list (string * string))
}.

Inductive HeaderVersion := VersionSelector | VersionBadge.

(** Truthiness of an optional array or object: it is truthy when present.
    With the bind of [option], [p <- pkg; f p] reads as [pkg?.f]. *)
Definition present {A : Type} (v : option A) : bool :=
  match v with
  | Some _ => true
  | None => false
  end.

(** The [v-if] / [v-else-if] pair of the header next to the package name:
    the version selector, the plain version badge, or neither. Arrays and
    objects are truthy, so a field counts when it is present. *)
Definition headerVersion (version : option string) (pkg : option PackageSummary)
    : option HeaderVersion :=
  if truthy_opt version
     && present (p ← pkg; pkg_versions p)
     && present (p ← pkg; pkg_dist_tags p)
  then Some VersionSelector
  else if truthy_opt version then Some VersionBadge
  else None.

(** ** Examples *)

Example parsedRoute_nuxt :
  parsedRoute (Some ["nuxt"; "v"; "4.2.0"]) = mkParsedRoute "nuxt" (Some "4.2.0").
Proof. reflexivity. Qed.

Example parsedRoute_scoped :
  parsedRoute (Some ["@nuxt"; "kit"; "v"; "1.0.0"]) = mkParsedRoute "@nuxt/kit" (Some "1.0.0").
Proof. reflexivity. Qed.

Example parsedRoute_trailing_v :
  parsedRoute (Some ["nuxt"; "v"]) = mkParsedRoute "nuxt/v" None.
Proof. reflexivity. Qed.

Example parsedRoute_empty :
  parsedRoute None = mkParsedRoute "" None /\ parsedRoute (Some []) = mkParsedRoute "" None.
Proof. split; reflexivity. Qed.

Example orgName_examples :
  orgName "@foo/bar" = Some "foo" /\ orgName "foo" = None /\
  orgName "@foo" = None /\ orgName "@/bar" = None /\
  orgName "@nuxt/kit/extra" = Some "nuxt".
Proof. repeat split; reflexivity. Qed.

Example packageRoute_examples :
  params_package (packageRoute "@nuxt/kit" (Some "1.0.0")) = ["@nuxt"; "kit"; "v"; "1.0.0"] /\
  params_package (packageRoute "nuxt" None) = ["nuxt"] /\
  params_package (packageRoute "" None) = [""].
Proof. repeat split; reflexivity. Qed.

Example seo_examples :
  pageTitle "nuxt" (Some "4.2.0") = "Dependencies - nuxt@4.2.0 - npmx" /\
  pageDescription "nuxt" (Some "4.2.0") = "Browse dependency tree for nuxt@4.2.0" /\
  canonicalUrl "@nuxt/kit" (Some "1.0.0") = "https://npmx.dev/dependencies/@nuxt/kit/v/1.0.0" /\
  pageTitle "nuxt" None = "Dependencies - npmx".
Proof. repeat split; reflexivity. Qed.

(** ** Facts about the JavaScript primitives *)

(** Closed decidable propositions are settled by evaluation. *)
Ltac decide_closed := apply (bool_decide_unpack _); vm_compute; exact I.

Lemma indexOf_from_absent (x : string) (l : list string) (k : Z) :
  x ∉ l -> indexOf_from x l k = -1.
Proof.
  revert k. induction l as [|y l IH]; intros k Hx; simpl; [done|].
  apply not_elem_of_cons in Hx as [Hxy Hl].
  destruct (String.eqb_spec y x) as [->|_]; [done|]. by apply IH.
Qed.

Lemma indexOf_from_first (x : string) (pre rest : list string) (k : Z) :
  x ∉ pre -> indexOf_from x (pre ++ x :: rest) k = k + Z.of_nat (length pre).
Proof.
  revert k. induction pre as [|y pre IH]; intros k Hx; simpl.
  - rewrite String.eqb_refl. lia.
  - apply not_elem_of_cons in Hx as [Hxy Hpre].
    destruct (String.eqb_spec y x) as [->|_]; [done|].
    rewrite IH by done. lia.
Qed.

Lemma indexOf_absent (x : string) (l : list string) : x ∉ l -> indexOf x l = -1.
Proof. apply indexOf_from_absent. Qed.

Lemma indexOf_first (x : string) (pre rest : list string) :
  x ∉ pre -> indexOf x (pre ++ x :: rest) = Z.of_nat (length pre).
Proof. intros Hx. unfold indexOf. by rewrite indexOf_from_first. Qed.

Lemma relative_index_in_range (len i : Z) :
  0 <= i <= len -> relative_index len i = i.
Proof.
  intros Hi. unfold relative_index.
  destruct (Z.ltb_spec i 0); lia.
Qed.

Lemma slice_take {A : Type} (l : list A) (i : Z) :
  0 <= i <= Z.of_nat (length l) -> slice l 0 (Some i) = take (Z.to_nat i) l.
Proof.
  intros Hi. unfold slice.
  rewrite !relative_index_in_range by lia.
  by rewrite Z.sub_0_r.
Qed.

Lemma slice_drop {A : Type} (l : list A) (i : Z) :
  0 <= i <= Z.of_nat (length l) -> slice l i None = drop (Z.to_nat i) l.
Proof.
  intros Hi. unfold slice.
  rewrite relative_index_in_range by lia.
  apply take_ge. rewrite length_drop. lia.
Qed.

Lemma slice_prefix {A : Type} (pre rest : list A) :
  slice (pre ++ rest) 0 (Some (Z.of_nat (length pre))) = pre.
Proof.
  rewrite slice_take by (rewrite length_app; lia).
  rewrite Nat2Z.id. apply take_app_length.
Qed.

Lemma slice_suffix {A : Type} (pre : list A) (x : A) (rest : list A) :
  slice (pre ++ x :: rest) (Z.of_nat (length pre) + 1) None = rest.
Proof.
  rewrite slice_drop by (rewrite length_app; simpl; lia).
  replace (Z.to_nat (Z.of_nat (length pre) + 1)) with (length (pre ++ [x])).
  - change (pre ++ x :: rest) with (pre ++ [x] ++ rest).
    rewrite (app_assoc pre [x] rest). apply drop_app_length.
  - rewrite length_app. simpl. lia.
Qed.

(** ** Route parser: the three shapes of a segment list *)

Lemma parsedRoute_no_v (segs : list string) :
  "v" ∉ segs ->
  parsedRoute (Some segs) = mkParsedRoute (join "/" segs) None.
Proof.
  intros Hv. unfold parsedRoute. simpl default.
  by rewrite indexOf_absent.
Qed.

Lemma parsedRoute_v_last (pre : list string) :
  "v" ∉ pre ->
  parsedRoute (Some (pre ++ ["v"])) = mkParsedRoute (join "/" (pre ++ ["v"])) None.
Proof.
  intros Hv. unfold parsedRoute. simpl default.
  rewrite indexOf_first by done.
  rewrite length_app. simpl length.
  destruct (Z.geb_spec (Z.of_nat (length pre)) (Z.of_nat (length pre + 1) - 1)) as [_|?];
    [|lia].
  by rewrite orb_true_r.
Qed.

Lemma parsedRoute_v_separator (pre : list string) (ver : string) (rest : list string) :
  "v" ∉ pre ->
  parsedRoute (Some (pre ++ "v" :: ver :: rest)) = mkParsedRoute (join "/" pre) (Some ver).
Proof.
  intros Hv. unfold parsedRoute. simpl default.
  rewrite indexOf_first by done.
  rewrite length_app. simpl length.
  destruct (Z.eqb_spec (Z.of_nat (length pre)) (-1)) as [?|_]; [lia|].
  destruct (Z.geb_spec (Z.of_nat (length pre))
              (Z.of_nat (length pre + S (S (length rest))) - 1)) as [?|_]; [lia|].
  simpl orb. cbv iota.
  by rewrite slice_prefix, slice_suffix.
Qed.

Lemma segments_cases (segs : list string) :
  ("v" ∉ segs) \/
  (exists pre, ("v" ∉ pre) /\ segs = pre ++ ["v"]) \/
  (exists pre ver rest, ("v" ∉ pre) /\ segs = pre ++ "v" :: ver :: rest).
Proof.
  destruct (decide ("v" ∈ segs)) as [Hin|Hnin]; [|by left].
  right. apply list_elem_of_split_l in Hin as (pre & post & -> & Hpre).
  destruct post as [|ver rest]; [left|right]; eauto.
Qed.

Lemma join_nil_inv (sep : string) (l : list string) : join sep l <> "" -> l <> [].
Proof. by intros Hne ->. Qed.

(** ** Route parser: properties *)

(** C1. Reference definition of the route parser. For every sequence of
    path segments: when the token "v" does not occur, or its first
    occurrence is the last element, the result is all segments joined by
    "/" with a null version; otherwise the package name is the segments
    strictly before the first "v" joined by "/", and the version is the
    single segment right after that "v", whatever follows it. Every
    sequence has one of these three shapes. *)
Theorem parsedRoute_reference (segs : list string) :
  ("v" ∉ segs ->
     parsedRoute (Some segs) = mkParsedRoute (join "/" segs) None) /\
  (forall pre, "v" ∉ pre -> segs = pre ++ ["v"] ->
     parsedRoute (Some segs) = mkParsedRoute (join "/" segs) None) /\
  (forall pre ver rest, "v" ∉ pre -> segs = pre ++ "v" :: ver :: rest ->
     parsedRoute (Some segs) = mkParsedRoute (join "/" pre) (Some ver)) /\
  ("v" ∉ segs \/
   (exists pre, ("v" ∉ pre) /\ segs = pre ++ ["v"]) \/
   (exists pre ver rest, ("v" ∉ pre) /\ segs = pre ++ "v" :: ver :: rest)).
Proof.
  split; [apply parsedRoute_no_v|].
  split; [intros pre Hpre ->; by apply parsedRoute_v_last|].
  split; [intros pre ver rest Hpre ->; by apply parsedRoute_v_separator|].
  apply segments_cases.
Qed.

Lemma parsedRoute_reference_witness :
  ("v" ∉ ["@nuxt"; "kit"]) /\
  parsedRoute (Some ["@nuxt"; "kit"; "v"; "1.0.0"]) = mkParsedRoute "@nuxt/kit" (Some "1.0.0") /\
  ("v" ∉ ["nuxt"; "latest"]) /\
  parsedRoute (Some ["nuxt"; "latest"]) = mkParsedRoute "nuxt/latest" None /\
  parsedRoute (Some ["nuxt"; "v"]) = mkParsedRoute "nuxt/v" None.
Proof.
  assert (Hkit : "v" ∉ ["@nuxt"; "kit"]) by decide_closed.
  assert (Hnuxt : "v" ∉ ["nuxt"; "latest"]) by decide_closed.
  assert (H1 : "v" ∉ ["nuxt"]) by decide_closed.
  split; [exact Hkit|]. split.
  - exact (proj1 (proj2 (proj2 (parsedRoute_reference ["@nuxt"; "kit"; "v"; "1.0.0"])))
             ["@nuxt"; "kit"] "1.0.0" [] Hkit eq_refl).
  - split; [exact Hnuxt|]. split.
    + exact (proj1 (parsedRoute_reference ["nuxt"; "latest"]) Hnuxt).
    + exact (proj1 (proj2 (parsedRoute_reference ["nuxt"; "v"])) ["nuxt"] H1 eq_refl).
Defined.

(** C6. Invariant of the parse result. The package name is non-empty only
    when a segment precedes the "v" separator or, when no "v" acts as a
    separator (none occurs, or the first one is the final segment), when
    at least one segment exists; and the version is null whenever no "v"
    occurs or the first "v" is the final segment. *)
Theorem parsedRoute_invariant (segs : list string) :
  (packageName (parsedRoute (Some segs)) <> "" ->
     (exists pre ver rest,
        ("v" ∉ pre) /\ segs = pre ++ "v" :: ver :: rest /\ pre <> []) \/
     (("v" ∉ segs \/ exists pre, ("v" ∉ pre) /\ segs = pre ++ ["v"]) /\ segs <> [])) /\
  ("v" ∉ segs -> version (parsedRoute (Some segs)) = None) /\
  (forall pre, "v" ∉ pre -> segs = pre ++ ["v"] ->
     version (parsedRoute (Some segs)) = None).
Proof.
  split; [|split].
  - intros Hname.
    destruct (segments_cases segs) as [Hv|[(pre & Hv & ->)|(pre & ver & rest & Hv & ->)]].
    + right. split; [by left|].
      rewrite parsedRoute_no_v in Hname by done. by apply join_nil_inv in Hname.
    + right. split; [right; eauto|]. by destruct pre.
    + left. exists pre, ver, rest. split_and!; [done..|].
      rewrite parsedRoute_v_separator in Hname by done. by apply join_nil_inv in Hname.
  - intros Hv. by rewrite parsedRoute_no_v.
  - intros pre Hv ->. by rewrite parsedRoute_v_last.
Qed.

Lemma parsedRoute_invariant_witness :
  packageName (parsedRoute (Some ["@nuxt"; "kit"; "v"; "1.0.0"])) <> "" /\
  ((exists pre ver rest,
      ("v" ∉ pre) /\ ["@nuxt"; "kit"; "v"; "1.0.0"] = pre ++ "v" :: ver :: rest /\ pre <> []) \/
   (("v" ∉ ["@nuxt"; "kit"; "v"; "1.0.0"] \/
     exists pre, ("v" ∉ pre) /\ ["@nuxt"; "kit"; "v"; "1.0.0"] = pre ++ ["v"]) /\
    ["@nuxt"; "kit"; "v"; "1.0.0"] <> [])) /\
  ("v" ∉ ["nuxt"]) /\
  version (parsedRoute (Some ["nuxt"])) = None /\
  version (parsedRoute (Some ["nuxt"; "v"])) = None.
Proof.
  assert (Hname : packageName (parsedRoute (Some ["@nuxt"; "kit"; "v"; "1.0.0"])) <> "")
    by (vm_compute; discriminate).
  assert (H1 : "v" ∉ ["nuxt"]) by decide_closed.
  split; [exact Hname|]. split.
  - exact (proj1 (parsedRoute_invariant ["@nuxt"; "kit"; "v"; "1.0.0"]) Hname).
  - split; [exact H1|]. split.
    + exact (proj1 (proj2 (parsedRoute_invariant ["nuxt"])) H1).
    + exact (proj2 (proj2 (parsedRoute_invariant ["nuxt"; "v"])) ["nuxt"] H1 eq_refl).
Defined.

(** ** Conditional dependency fetch: properties *)

Lemma truthy_opt_true (v : option string) :
  truthy_opt v = true <-> exists s, v = Some s /\ s <> "".
Proof.
  destruct v as [[|a s]|]; simpl; split; try done.
  - intros (s & [= <-] & Hs). done.
  - intros _. by exists (String a s).
  - by intros (s & [=] & _).
Qed.

Lemma truthy_opt_false (v : option string) :
  truthy_opt v = false <-> v = None \/ v = Some "".
Proof.
  destruct v as [[|a s]|]; simpl; split; auto; try done.
  intros [[=]|[=]].
Qed.

(** C5. Conditional dependency fetch. For every route whose parsed version
    is null, the setup of the page issues no request; and every request
    that the setup issues is the one for
    /api/registry/dependencies/{packageName}/v/{version} with the resolved
    (non-empty) version of the route. *)
Theorem dependenciesFetch_conditional (path : option (list string)) :
  (version (parsedRoute path) = None -> dependenciesFetch path = []) /\
  (forall url, url ∈ dependenciesFetch path ->
     exists v, version (parsedRoute path) = Some v /\ v <> "" /\
       url = "/api/registry/dependencies/" +:+ packageName (parsedRoute path)
               +:+ "/v/" +:+ v).
Proof.
  unfold dependenciesFetch, useFetch. simpl immediate. split.
  - by intros ->.
  - intros url Hurl.
    destruct (truthy_opt (version (parsedRoute path))) eqn:Hv;
      [|by apply elem_of_nil in Hurl].
    apply truthy_opt_true in Hv as (v & Hv & Hne).
    apply list_elem_of_singleton in Hurl as ->.
    exists v. by rewrite Hv.
Qed.

Lemma dependenciesFetch_conditional_witness :
  version (parsedRoute (Some ["nuxt"])) = None /\
  dependenciesFetch (Some ["nuxt"]) = [] /\
  ("/api/registry/dependencies/nuxt/v/4.2.0" ∈ dependenciesFetch (Some ["nuxt"; "v"; "4.2.0"])) /\
  exists v, version (parsedRoute (Some ["nuxt"; "v"; "4.2.0"])) = Some v /\ v <> "" /\
    "/api/registry/dependencies/nuxt/v/4.2.0" =
      "/api/registry/dependencies/" +:+
        packageName (parsedRoute (Some ["nuxt"; "v"; "4.2.0"])) +:+ "/v/" +:+ v.
Proof.
  assert (Hin : "/api/registry/dependencies/nuxt/v/4.2.0"
                  ∈ dependenciesFetch (Some ["nuxt"; "v"; "4.2.0"]))
    by (vm_compute; apply list_elem_of_here).
  split; [reflexivity|]. split.
  - exact (proj1 (dependenciesFetch_conditional (Some ["nuxt"])) eq_refl).
  - split; [exact Hin|].
    exact (proj2 (dependenciesFetch_conditional (Some ["nuxt"; "v"; "4.2.0"])) _ Hin).
Defined.

(** ** Render state: properties *)

(** C2, as stated, fails. With a version, a successful status and no
    payload none of the four blocks is rendered, so it is not the case that
    exactly one state renders for every combination; and the first test of
    the chain is the truthiness of the version, so an empty (non-null)
    version with a pending status shows the no-version state, not the
    loading state. *)
Lemma renderState_counterexample :
  renderState (Some "1.0.0") success None = None /\
  renderState (Some "") pending None = Some NoVersion.
Proof. split; reflexivity. Qed.

(** C2, amended. For every combination of version, status and payload at
    most one of the four states renders, chosen in priority order:
    no-version when the version is null or empty, whatever the status and
    the payload; otherwise loading when the status is pending; otherwise
    error when the status is error; otherwise content when a payload is
    present; and nothing when none of these holds. *)
Theorem renderState_priority (version : option string) (status : FetchStatus)
    (payload : option PackageDependenciesResponse) :
  (version = None \/ version = Some "" ->
     renderState version status payload = Some NoVersion) /\
  (forall v, version = Some v -> v <> "" ->
     (status = pending -> renderState version status payload = Some Loading) /\
     (status = error -> renderState version status payload = Some FetchError) /\
     (status = success -> is_Some payload ->
        renderState version status payload = Some Content) /\
     (status = success -> payload = None ->
        renderState version status payload = None)) /\
  (forall s1 s2, renderState version status payload = Some s1 ->
     renderState version status payload = Some s2 -> s1 = s2).
Proof.
  split; [|split].
  - intros Hv. apply truthy_opt_false in Hv. unfold renderState. by rewrite Hv.
  - intros v -> Hv.
    assert (Ht : truthy_opt (Some v) = true) by (apply truthy_opt_true; eauto).
    unfold renderState. rewrite Ht. simpl negb. cbv iota.
    split_and!.
    + by intros ->.
    + by intros ->.
    + by intros -> [d ->].
    + by intros -> ->.
  - congruence.
Qed.

Lemma renderState_priority_witness :
  renderState None error None = Some NoVersion /\
  renderState None pending None = Some NoVersion /\
  renderState (Some "4.2.0") pending None = Some Loading /\
  renderState (Some "4.2.0") error None = Some FetchError /\
  renderState (Some "4.2.0") success (Some (mkResponse 0 [] None)) = Some Content /\
  renderState (Some "4.2.0") success None = None.
Proof.
  assert (Hne : "4.2.0" <> "") by discriminate.
  split; [exact (proj1 (renderState_priority None error None) (or_introl eq_refl))|].
  split; [exact (proj1 (renderState_priority None pending None) (or_introl eq_refl))|].
  split; [exact (proj1 (proj1 (proj2 (renderState_priority (Some "4.2.0") pending None))
                           "4.2.0" eq_refl Hne) eq_refl)|].
  split; [exact (proj1 (proj2 (proj1 (proj2 (renderState_priority (Some "4.2.0") error None))
                           "4.2.0" eq_refl Hne)) eq_refl)|].
  split.
  - exact (proj1 (proj2 (proj2 (proj1 (proj2
             (renderState_priority (Some "4.2.0") success (Some (mkResponse 0 [] None))))
             "4.2.0" eq_refl Hne))) eq_refl (mk_is_Some _ _ eq_refl)).
  - exact (proj2 (proj2 (proj2 (proj1 (proj2
             (renderState_priority (Some "4.2.0") success None))
             "4.2.0" eq_refl Hne))) eq_refl eq_refl).
Defined.

(** ** SEO strings: properties *)

Lemma string_length_app (s t : string) :
  String.length (s +:+ t) = (String.length s + String.length t)%nat.
Proof.
  induction s as [|a s IH]; [done|].
  change (String a s +:+ t) with (String a (s +:+ t)).
  cbn [String.length]. by rewrite IH.
Qed.

Lemma seo_guard_true (packageName : string) (version : option string) :
  truthy packageName && truthy_opt version = true <->
  packageName <> "" /\ exists v, version = Some v /\ v <> "".
Proof.
  rewrite andb_true_iff, truthy_opt_true.
  destruct packageName; simpl; intuition congruence.
Qed.

Lemma seo_guard_false (packageName : string) (version : option string) :
  truthy packageName && truthy_opt version = false <->
  packageName = "" \/ version = None \/ version = Some "".
Proof.
  rewrite andb_false_iff, truthy_opt_false.
  destruct packageName; simpl; intuition congruence.
Qed.

Lemma pageTitle_template_not_generic (p v : string) :
  "Dependencies - " +:+ p +:+ "@" +:+ v +:+ " - npmx" <> "Dependencies - npmx".
Proof.
  intros Heq. apply (f_equal String.length) in Heq.
  rewrite !string_length_app in Heq. simpl in Heq. lia.
Qed.

Lemma pageDescription_template_not_generic (t : string) :
  "Browse dependency tree for " +:+ t <> "Browse package dependencies".
Proof. lazy. discriminate. Qed.

Lemma canonicalUrl_template_not_generic (t : string) :
  "https://npmx.dev/dependencies/" +:+ t <> "https://npmx.dev/dependencies".
Proof. lazy. discriminate. Qed.

(** C8, as stated, fails. The route ["v"; "1.0.0"] parses to an empty
    package name with the version "1.0.0": the version is present and yet
    the three strings are the generic copy. *)
Lemma seo_counterexample :
  version (parsedRoute (Some ["v"; "1.0.0"])) = Some "1.0.0" /\
  pageTitle (packageName (parsedRoute (Some ["v"; "1.0.0"])))
            (version (parsedRoute (Some ["v"; "1.0.0"]))) = "Dependencies - npmx" /\
  pageDescription (packageName (parsedRoute (Some ["v"; "1.0.0"])))
                  (version (parsedRoute (Some ["v"; "1.0.0"]))) = "Browse package dependencies" /\
  canonicalUrl (packageName (parsedRoute (Some ["v"; "1.0.0"])))
               (version (parsedRoute (Some ["v"; "1.0.0"]))) = "https://npmx.dev/dependencies".
Proof. repeat split; reflexivity. Qed.

(** C8, amended. The title, the description and the canonical URL are
    string templates over the package name and the version, and each is
    its generic copy exactly when the package name is empty or the version
    is null or empty; otherwise the versioned templates are produced. *)
Theorem seo_strings (packageName : string) (version : option string) :
  (forall v, packageName <> "" -> version = Some v -> v <> "" ->
     pageTitle packageName version =
       "Dependencies - " +:+ packageName +:+ "@" +:+ v +:+ " - npmx" /\
     pageDescription packageName version =
       "Browse dependency tree for " +:+ packageName +:+ "@" +:+ v /\
     canonicalUrl packageName version =
       "https://npmx.dev/dependencies/" +:+ packageName +:+ "/v/" +:+ v) /\
  (pageTitle packageName version = "Dependencies - npmx" <->
     packageName = "" \/ version = None \/ version = Some "") /\
  (pageDescription packageName version = "Browse package dependencies" <->
     packageName = "" \/ version = None \/ version = Some "") /\
  (canonicalUrl packageName version = "https://npmx.dev/dependencies" <->
     packageName = "" \/ version = None \/ version = Some "").
Proof.
  unfold pageTitle, pageDescription, canonicalUrl.
  destruct (truthy packageName && truthy_opt version) eqn:Hguard.
  - pose proof (proj1 (seo_guard_true _ _) Hguard) as (Hp & v & -> & Hv).
    assert (Hno : ~ (packageName = "" \/ Some v = None \/ Some v = Some ""))
      by (intros [?|[?|?]]; congruence).
    split_and!.
    + by intros v' _ [= <-] _.
    + split; [intros Heq; by apply pageTitle_template_not_generic in Heq|done].
    + split; [intros Heq; by apply pageDescription_template_not_generic in Heq|done].
    + split; [intros Heq; by apply canonicalUrl_template_not_generic in Heq|done].
  - pose proof (proj1 (seo_guard_false _ _) Hguard) as Hor.
    split_and!; [|done..].
    intros v Hp -> Hv. destruct Hor as [?|[?|?]]; congruence.
Qed.

Lemma seo_strings_witness :
  pageTitle "nuxt" (Some "4.2.0") = "Dependencies - nuxt@4.2.0 - npmx" /\
  pageDescription "nuxt" (Some "4.2.0") = "Browse dependency tree for nuxt@4.2.0" /\
  canonicalUrl "nuxt" (Some "4.2.0") = "https://npmx.dev/dependencies/nuxt/v/4.2.0".
Proof.
  assert (Hp : "nuxt" <> "") by discriminate.
  assert (Hv : "4.2.0" <> "") by discriminate.
  exact (proj1 (seo_strings "nuxt" (Some "4.2.0")) "4.2.0" Hp eq_refl Hv).
Defined.

(** ** Direct dependencies: properties *)

Section FilterFacts.
Context {A : Type} (P : A -> Prop) `{!forall x, Decision (P x)}.

Lemma filter_sublist_mono (l1 l2 : list A) :
  l1 `sublist_of` l2 -> filter P l1 `sublist_of` filter P l2.
Proof.
  induction 1 as [|x l1 l2 _ IH|x l1 l2 _ IH]; [done|..];
    rewrite ?(filter_cons P x); destruct (decide (P x));
    auto using sublist_skip, sublist_cons.
Qed.

Lemma filter_all (l : list A) : Forall P l -> filter P l = l.
Proof.
  induction 1 as [|x l Hx _ IH]; [done|].
  by rewrite filter_cons_True, IH.
Qed.
End FilterFacts.

(** C3. Direct dependency derivation. For every dependencies response the
    derived list contains exactly the records whose depth is "direct": a
    record is in the list if and only if it is in the response with that
    depth. The list keeps the order of the response, as a subsequence of
    it, and it drops no occurrence: every subsequence of the response made
    of direct records only is a subsequence of the list. Without payload
    the list is empty. *)
Theorem directDependencies_exact (d : PackageDependenciesResponse) :
  (forall dep, dep ∈ directDependencies (Some d) <->
     dep ∈ resp_dependencies d /\ dep_depth dep = "direct") /\
  directDependencies (Some d) `sublist_of` resp_dependencies d /\
  (forall l, l `sublist_of` resp_dependencies d -> Forall is_direct l ->
     l `sublist_of` directDependencies (Some d)) /\
  directDependencies None = [].
Proof.
  unfold directDependencies. split_and!; [| |  |done].
  - intros dep. rewrite list_elem_of_filter. tauto.
  - apply sublist_filter.
  - intros l Hsub Hall.
    rewrite <- (filter_all is_direct l Hall).
    by apply (filter_sublist_mono is_direct).
Qed.

Lemma directDependencies_exact_witness :
  directDependencies (Some (mkResponse 2
      [ mkDependencyRecord "vue" "3.5.0" "direct" false;
        mkDependencyRecord "csstype" "3.1.3" "transitive" false;
        mkDependencyRecord "ofetch" "1.4.0" "direct" true ] None))
  = [ mkDependencyRecord "vue" "3.5.0" "direct" false;
      mkDependencyRecord "ofetch" "1.4.0" "direct" true ] /\
  [ mkDependencyRecord "vue" "3.5.0" "direct" false;
    mkDependencyRecord "ofetch" "1.4.0" "direct" true ]
  `sublist_of`
  directDependencies (Some (mkResponse 2
      [ mkDependencyRecord "vue" "3.5.0" "direct" false;
        mkDependencyRecord "csstype" "3.1.3" "transitive" false;
        mkDependencyRecord "ofetch" "1.4.0" "direct" true ] None)).
Proof.
  split; [reflexivity|].
  apply (proj1 (proj2 (proj2 (directDependencies_exact (mkResponse 2
      [ mkDependencyRecord "vue" "3.5.0" "direct" false;
        mkDependencyRecord "csstype" "3.1.3" "transitive" false;
        mkDependencyRecord "ofetch" "1.4.0" "direct" true ] None))))).
  - simpl. apply sublist_skip, sublist_cons, sublist_skip, sublist_nil.
  - repeat constructor.
Defined.

(** ** Organization extraction: properties *)

Lemma string_app_cons (a : ascii) (s t : string) :
  String a s +:+ t = String a (s +:+ t).
Proof. reflexivity. Qed.

Lemma string_app_nil_l (t : string) : "" +:+ t = t.
Proof. reflexivity. Qed.

Lemma startsWith_at (name : string) :
  startsWith name "@" = true <-> exists s, name = String "@" s.
Proof.
  destruct name as [|a s]; simpl.
  - split; [done|]. by intros (s & [=]).
  - destruct (Ascii.eqb_spec a "@") as [->|Hne]; simpl.
    + split; [eauto|]. intros _. by destruct s.
    + split; [done|]. intros (s' & [= -> _]). done.
Qed.

Lemma substring_prefix (s t : string) :
  String.substring 0 (String.length s) (s +:+ t) = s.
Proof.
  induction s as [|a s IH].
  - by destruct t.
  - rewrite string_app_cons. cbn [String.length String.substring]. by rewrite IH.
Qed.

Lemma consumed_prefix (s t : string) : consumed (s +:+ t) t = s.
Proof.
  unfold consumed. rewrite string_length_app.
  replace (String.length s + String.length t - String.length t)%nat
    with (String.length s) by lia.
  apply substring_prefix.
Qed.

(** A greedy repetition of [[^c]] in front of the character [c] consumes
    the whole run before it, when the continuation accepts there. *)
Lemma plus_match_run {R : Type} (c : ascii) (run rest : string)
    (k : string -> option R) (r : R) :
  run <> "" -> includes run c = false ->
  k (String c rest) = Some r ->
  plus_match (CsNot c) (run +:+ String c rest) k = Some r.
Proof.
  intros Hne Hrun Hk. induction run as [|a run IH]; [done|].
  simpl in Hrun. apply orb_false_iff in Hrun as [Ha Hrun].
  rewrite string_app_cons. simpl. rewrite Ha. simpl.
  destruct run as [|b run].
  - rewrite string_app_nil_l. simpl. rewrite Ascii.eqb_refl. simpl. done.
  - by rewrite IH.
Qed.

(** Without any [c] in the input, a continuation that needs a [c] next
    never succeeds, wherever the repetition stops. *)
Lemma plus_match_no_separator {R : Type} (cs : CharSet) (c : ascii) (s : string)
    (k : string -> option R) :
  (forall t, includes t c = false -> k t = None) ->
  includes s c = false ->
  plus_match cs s k = None.
Proof.
  intros Hk. induction s as [|a s IH]; intros Hs; [done|].
  simpl in Hs. apply orb_false_iff in Hs as [Ha Hs].
  simpl. destruct (cs_accepts cs a); [|done].
  rewrite IH by done. by apply Hk.
Qed.

Lemma includes_split (c : ascii) (s : string) :
  includes s c = true ->
  exists pre rest, s = pre +:+ String c rest /\ includes pre c = false.
Proof.
  induction s as [|a s IH]; intros Hs; [done|].
  simpl in Hs. destruct (Ascii.eqb_spec a c) as [->|Hne].
  - by exists "", s.
  - simpl in Hs. destruct (IH Hs) as (pre & rest & -> & Hpre).
    exists (String a pre), rest. split; [done|].
    simpl. rewrite Hpre. by apply Ascii.eqb_neq in Hne as ->.
Qed.

(** Every name is of one of the four shapes that decide the extraction. *)
Lemma name_cases (name : string) :
  startsWith name "@" = false \/
  (exists s, includes s "/" = false /\ name = "@" +:+ s) \/
  (exists rest, name = "@/" +:+ rest) \/
  (exists org rest, org <> "" /\ includes org "/" = false /\
     name = "@" +:+ org +:+ "/" +:+ rest).
Proof.
  destruct (startsWith name "@") eqn:Hat; [right|by left].
  apply startsWith_at in Hat as (s & ->).
  destruct (includes s "/") eqn:Hs; [right|left; by exists s].
  apply includes_split in Hs as (pre & rest & -> & Hpre).
  destruct pre as [|a pre]; [left; by exists rest|right].
  by exists (String a pre), rest.
Qed.

Lemma orgName_unscoped (name : string) :
  startsWith name "@" = false -> orgName name = None.
Proof. intros Hs. unfold orgName. by rewrite Hs. Qed.

Lemma orgName_scoped (org rest : string) :
  org <> "" -> includes org "/" = false ->
  orgName ("@" +:+ org +:+ "/" +:+ rest) = Some org.
Proof.
  intros Hne Horg. unfold orgName.
  change ("@" +:+ org +:+ "/" +:+ rest) with (String "@" (org +:+ String "/" rest)).
  assert (Hs : startsWith (String "@" (org +:+ String "/" rest)) "@" = true)
    by (apply startsWith_at; eauto).
  rewrite Hs. simpl negb. cbv iota.
  unfold match_anchored, org_pattern. simpl rmatch.
  erewrite plus_match_run; [|done|done|simpl; reflexivity].
  simpl. f_equal. apply (consumed_prefix org (String "/" rest)).
Qed.

Lemma orgName_empty_scope (rest : string) : orgName ("@/" +:+ rest) = None.
Proof. reflexivity. Qed.

Lemma orgName_no_slash (s : string) :
  includes s "/" = false -> orgName ("@" +:+ s) = None.
Proof.
  intros Hs. unfold orgName.
  change ("@" +:+ s) with (String "@" s).
  assert (Hst : startsWith (String "@" s) "@" = true) by (apply startsWith_at; eauto).
  rewrite Hst. simpl negb. cbv iota.
  unfold match_anchored, org_pattern. simpl rmatch.
  rewrite (plus_match_no_separator _ "/" s); [done| |done].
  intros [|a t] Ht; [done|]. simpl in Ht. apply orb_false_iff in Ht as [-> _]. done.
Qed.

(** C7, as stated, fails. The name "@/bar" starts with "@", the text
    strictly between the leading "@" and the following "/" is the empty
    string, and the result is null, not that (empty) substring. *)
Lemma orgName_counterexample :
  startsWith "@/bar" "@" = true /\
  "@/bar" = "@" +:+ "" +:+ "/" +:+ "bar" /\
  orgName "@/bar" = None.
Proof. repeat split; reflexivity. Qed.

(** C7, amended. For every package name: if it starts with "@" followed by
    at least one character other than "/" and then a "/", the result is
    the substring strictly between the leading "@" and that "/"; in every
    other case (the name does not start with "@", the "/" comes right
    after the "@", or no "/" follows the "@") the result is null. In
    particular "@foo/bar" yields "foo" and "foo" yields null. *)
Theorem orgName_extraction (name : string) :
  (forall org rest, org <> "" -> includes org "/" = false ->
     name = "@" +:+ org +:+ "/" +:+ rest -> orgName name = Some org) /\
  (startsWith name "@" = false -> orgName name = None) /\
  (forall rest, name = "@/" +:+ rest -> orgName name = None) /\
  (forall s, includes s "/" = false -> name = "@" +:+ s -> orgName name = None) /\
  (startsWith name "@" = false \/
   (exists s, includes s "/" = false /\ name = "@" +:+ s) \/
   (exists rest, name = "@/" +:+ rest) \/
   (exists org rest, org <> "" /\ includes org "/" = false /\
      name = "@" +:+ org +:+ "/" +:+ rest)) /\
  orgName "@foo/bar" = Some "foo" /\
  orgName "foo" = None.
Proof.
  split_and!; [| | | | |done..].
  - intros org rest Hne Horg ->. by apply orgName_scoped.
  - apply orgName_unscoped.
  - intros rest ->. apply orgName_empty_scope.
  - intros s Hs ->. by apply orgName_no_slash.
  - apply name_cases.
Qed.

Lemma orgName_extraction_witness :
  orgName "@nuxt/kit" = Some "nuxt" /\ orgName "nuxt" = None /\ orgName "@/kit" = None.
Proof.
  assert (Hne : "nuxt" <> "") by discriminate.
  split; [|split].
  - exact (proj1 (orgName_extraction "@nuxt/kit") "nuxt" "kit" Hne eq_refl eq_refl).
  - exact (proj1 (proj2 (orgName_extraction "nuxt")) eq_refl).
  - exact (proj1 (proj2 (proj2 (orgName_extraction "@/kit"))) "kit" eq_refl).
Defined.

(** C10. Edge case of the organization extraction. For every package name
    that starts with "@" and has no "/" after it, such as "@foo", the
    result is null, not the remainder of the name. *)
Theorem orgName_without_slash (name s : string) :
  name = "@" +:+ s -> includes s "/" = false -> orgName name = None.
Proof. intros -> Hs. by apply orgName_no_slash. Qed.

Lemma orgName_without_slash_witness : orgName "@foo" = None.
Proof. exact (orgName_without_slash "@foo" "foo" eq_refl eq_refl). Defined.

(** ** Parsing a route and building the package link *)

Lemma split_no_separator (c : ascii) (s : string) :
  includes s c = false -> split c s = [s].
Proof.
  induction s as [|a s IH]; intros Hs; [done|].
  simpl in Hs. apply orb_false_iff in Hs as [Ha Hs].
  simpl. by rewrite Ha, IH.
Qed.

Lemma split_app_separator (c : ascii) (s t : string) :
  includes s c = false -> split c (s +:+ String c t) = s :: split c t.
Proof.
  induction s as [|a s IH]; intros Hs.
  - rewrite string_app_nil_l. simpl. by rewrite Ascii.eqb_refl.
  - simpl in Hs. apply orb_false_iff in Hs as [Ha Hs].
    rewrite string_app_cons. simpl. by rewrite Ha, IH.
Qed.

Lemma split_join (c : ascii) (l : list string) :
  l <> [] -> Forall (fun s => includes s c = false) l ->
  split c (join (String c "") l) = l.
Proof.
  intros Hne Hall. induction Hall as [|s l Hs Hall IH]; [done|].
  destruct l as [|s' l].
  - by apply split_no_separator.
  - change (join (String c "") (s :: s' :: l))
      with (s +:+ String c (join (String c "") (s' :: l))).
    rewrite split_app_separator by done. by rewrite IH.
Qed.

(** C9. Round trip between the route parser and the link builder. For
    every non-empty list of segments [pre] without "/" inside a segment
    and without the segment "v", and every non-empty version [ver]:
    parsing [pre ++ ["v"; ver]] and building the package route with the
    parsed version gives back [pre ++ ["v"; ver]] as the [package]
    parameter; parsing [pre] alone and building the package route without
    version gives back [pre]. *)
Theorem packageRoute_roundtrip (pre : list string) (ver : string) :
  pre <> [] ->
  Forall (fun s => includes s "/" = false) pre ->
  "v" ∉ pre ->
  ver <> "" ->
  params_package
    (packageRoute (packageName (parsedRoute (Some (pre ++ ["v"; ver]))))
                  (version (parsedRoute (Some (pre ++ ["v"; ver])))))
    = pre ++ ["v"; ver] /\
  params_package (packageRoute (packageName (parsedRoute (Some pre))) None) = pre.
Proof.
  intros Hne Hslash Hv Hver. split.
  - rewrite parsedRoute_v_separator by done. simpl.
    destruct ver as [|a ver]; [done|]. simpl.
    by rewrite (split_join "/" pre).
  - rewrite parsedRoute_no_v by done. simpl.
    by apply (split_join "/" pre).
Qed.

Lemma packageRoute_roundtrip_witness :
  params_package
    (packageRoute (packageName (parsedRoute (Some (["@nuxt"; "kit"] ++ ["v"; "1.0.0"]))))
                  (version (parsedRoute (Some (["@nuxt"; "kit"] ++ ["v"; "1.0.0"])))))
    = ["@nuxt"; "kit"] ++ ["v"; "1.0.0"] /\
  params_package (packageRoute (packageName (parsedRoute (Some ["@nuxt"; "kit"]))) None)
    = ["@nuxt"; "kit"].
Proof.
  apply (packageRoute_roundtrip ["@nuxt"; "kit"] "1.0.0").
  - discriminate.
  - repeat constructor.
  - decide_closed.
  - discriminate.
Defined.

(** ** Dev dependencies: properties *)

Section SortFacts.
Context {A : Type} (comparefn : A -> A -> Z).

Lemma sort_insert_Permutation (x : A) (l : list A) :
  Permutation (sort_insert comparefn x l) (x :: l).
Proof.
  induction l as [|y l IH]; simpl; [done|].
  destruct (comparefn x y <=? 0); [done|].
  rewrite IH. apply perm_swap.
Qed.

Lemma sort_Permutation (l : list A) : Permutation (sort comparefn l) l.
Proof.
  induction l as [|x l IH]; simpl; [done|].
  rewrite sort_insert_Permutation. by constructor.
Qed.

Hypothesis comparefn_antisym :
  forall x y, Z.sgn (comparefn y x) = - Z.sgn (comparefn x y).
Hypothesis comparefn_trans :
  forall x y z, comparefn x y <= 0 -> comparefn y z <= 0 -> comparefn x z <= 0.

Lemma comparefn_total (x y : A) : comparefn x y <= 0 \/ comparefn y x <= 0.
Proof. pose proof (comparefn_antisym x y). lia. Qed.

Lemma sort_insert_sorted (x : A) (l : list A) :
  StronglySorted (fun a b => comparefn a b <= 0) l ->
  StronglySorted (fun a b => comparefn a b <= 0) (sort_insert comparefn x l).
Proof.
  induction 1 as [|y l Hsorted IH Hy]; simpl.
  - repeat constructor.
  - destruct (Z.leb_spec (comparefn x y) 0) as [Hxy|Hxy].
    + constructor; [by constructor|].
      constructor; [done|].
      eapply Forall_impl; [exact Hy|]. intros z Hyz. by eapply comparefn_trans.
    + constructor; [done|].
      rewrite sort_insert_Permutation. constructor; [|done].
      destruct (comparefn_total x y); [lia|done].
Qed.

Lemma sort_sorted (l : list A) :
  StronglySorted (fun a b => comparefn a b <= 0) (sort comparefn l).
Proof.
  induction l as [|x l IH]; simpl; [constructor|].
  by apply sort_insert_sorted.
Qed.


End SortFacts.

Lemma StronglySorted_weaken {A : Type} (R1 R2 : A -> A -> Prop) (l : list A) :
  (forall x y, R1 x y -> R2 x y) -> StronglySorted R1 l -> StronglySorted R2 l.
Proof.
  intros HR. induction 1 as [|x l _ IH Hx]; constructor; [done|].
  eapply Forall_impl; [exact Hx|]. intros y. apply HR.
Qed.

Lemma codeCompare_antisym (a b : string) :
  Z.sgn (codeCompare b a) = - Z.sgn (codeCompare a b).
Proof.
  unfold codeCompare. rewrite (String.compare_antisym a b).
  by destruct (String.compare b a).
Qed.

Lemma codeCompare_le (a b : string) : codeCompare a b <= 0 <-> String.le a b.
Proof.
  unfold codeCompare, String.le, String.leb.
  destruct (String.compare a b); simpl; split; (done || lia).
Qed.

Lemma codeCompare_trans (a b c : string) :
  codeCompare a b <= 0 -> codeCompare b c <= 0 -> codeCompare a c <= 0.
Proof. rewrite !codeCompare_le. apply transitivity. Qed.

(** C4. Dev dependency derivation. [localeCompare] is any consistent
    comparison of strings: the signs of the two orders of a pair are
    opposite, and "not greater" is transitive. For every dev-dependency
    mapping the derived value has exactly the (name, version) pairs of the
    mapping, each as many times, and is sorted ascending by name under
    [localeCompare]; and when "a" sorts before "b", the mapping
    { b: "1.0.0", a: "2.0.0" } yields [["a","2.0.0"], ["b","1.0.0"]].
    Without payload or without mapping the derived value is empty. *)
Theorem devDependencies_sorted (localeCompare : string -> string -> Z)
    (d : PackageDependenciesResponse) (entries : list (string * string)) :
  (forall a b, Z.sgn (localeCompare b a) = - Z.sgn (localeCompare a b)) ->
  (forall a b c, localeCompare a b <= 0 -> localeCompare b c <= 0 ->
     localeCompare a c <= 0) ->
  resp_devDependencies d = Some entries ->
  Permutation (devDependencies localeCompare (Some d)) entries /\
  StronglySorted (name_le localeCompare) (devDependencies localeCompare (Some d)) /\
  (localeCompare "a" "b" < 0 -> entries = [("b", "1.0.0"); ("a", "2.0.0")] ->
     devDependencies localeCompare (Some d) = [("a", "2.0.0"); ("b", "1.0.0")]) /\
  devDependencies localeCompare None = [] /\
  devDependencies localeCompare
    (Some (mkResponse (resp_direct d) (resp_dependencies d) None)) = [].
Proof.
  intros Hantisym Htrans Hentries.
  unfold devDependencies. rewrite Hentries. simpl.
  split_and!; [| | |done..].
  - apply sort_Permutation.
  - eapply StronglySorted_weaken; [|apply sort_sorted].
    + by intros [a va] [b vb].
    + intros [a va] [b vb]. apply Hantisym.
    + intros [a va] [b vb] [c vc]. apply Htrans.
  - intros Hab ->. simpl.
    specialize (Hantisym "a" "b").
    destruct (Z.leb_spec (localeCompare "b" "a") 0); [lia|done].
Qed.

Lemma devDependencies_sorted_witness :
  Permutation
    (devDependencies codeCompare
       (Some (mkResponse 0 [] (Some [("b", "1.0.0"); ("a", "2.0.0")]))))
    [("b", "1.0.0"); ("a", "2.0.0")] /\
  devDependencies codeCompare
    (Some (mkResponse 0 [] (Some [("b", "1.0.0"); ("a", "2.0.0")])))
  = [("a", "2.0.0"); ("b", "1.0.0")].
Proof.
  pose proof (devDependencies_sorted codeCompare
                (mkResponse 0 [] (Some [("b", "1.0.0"); ("a", "2.0.0")]))
                [("b", "1.0.0"); ("a", "2.0.0")]
                codeCompare_antisym codeCompare_trans eq_refl) as (Hperm & _ & Hex & _).
  split; [exact Hperm|].
  apply Hex; [reflexivity|reflexivity].
Defined.

(** * Further properties of the page *)

(** ** The package link *)

Lemma split_nonempty (c : ascii) (s : string) : split c s <> [].
Proof.
  destruct s as [|a s]; simpl; [done|].
  destruct (Ascii.eqb a c); [done|]. by destruct (split c s).
Qed.

Lemma join_split (c : ascii) (s : string) : join (String c "") (split c s) = s.
Proof.
  induction s as [|a s IH]; [done|]. simpl.
  destruct (Ascii.eqb_spec a c) as [->|Hne].
  - pose proof (split_nonempty c s) as Hsplit.
    destruct (split c s) as [|w ws] eqn:Hs; [done|].
    change (join (String c "") ("" :: w :: ws))
      with (String c (join (String c "") (w :: ws))).
    by rewrite IH.
  - destruct (split c s) as [|w [|w' ws]] eqn:Hs.
    + by destruct (split_nonempty c s).
    + simpl in *. by rewrite IH.
    + change (join (String c "") (String a w :: w' :: ws))
        with (String a (join (String c "") (w :: w' :: ws))).
      by rewrite IH.
Qed.

Lemma string_app_assoc (s t u : string) : (s +:+ t) +:+ u = s +:+ t +:+ u.
Proof.
  induction s as [|a s IH]; [done|].
  rewrite !string_app_cons. by rewrite IH.
Qed.

Lemma join_app (sep : string) (l1 l2 : list string) :
  l1 <> [] -> l2 <> [] ->
  join sep (l1 ++ l2) = join sep l1 +:+ sep +:+ join sep l2.
Proof.
  intros Hl1 Hl2. induction l1 as [|x l1 IH]; [done|].
  destruct l1 as [|y l1].
  - destruct l2 as [|z l2]; [done|]. reflexivity.
  - change (join sep ((x :: y :: l1) ++ l2))
      with (x +:+ sep +:+ join sep ((y :: l1) ++ l2)).
    rewrite IH by done.
    change (join sep (x :: y :: l1)) with (x +:+ sep +:+ join sep (y :: l1)).
    by rewrite !string_app_assoc.
Qed.

(** X1. The package link spells the package name. For every package name,
    the [package] parameter is never empty and, joined by "/", gives back
    the name when the version is absent (null, undefined or empty), and
    the name followed by "/v/" and the version otherwise. *)
Theorem packageRoute_path (name : string) (ver : option string) :
  params_package (packageRoute name ver) <> [] /\
  (ver = None \/ ver = Some "" ->
     join "/" (params_package (packageRoute name ver)) = name) /\
  (forall v, ver = Some v -> v <> "" ->
     join "/" (params_package (packageRoute name ver)) = name +:+ "/v/" +:+ v).
Proof.
  pose proof (split_nonempty "/" name) as Hsplit.
  split_and!.
  - unfold packageRoute. destruct ver as [[|a v]|]; simpl; [done| |done].
    intros Happ. by apply app_eq_nil in Happ as [? _].
  - intros [->| ->]; simpl; apply (join_split "/").
  - intros v -> Hv. destruct v as [|a v]; [done|]. simpl.
    rewrite join_app by done. by rewrite (join_split "/").
Qed.

Lemma packageRoute_path_witness :
  join "/" (params_package (packageRoute "@nuxt/kit" None)) = "@nuxt/kit" /\
  join "/" (params_package (packageRoute "@nuxt/kit" (Some "1.0.0"))) = "@nuxt/kit/v/1.0.0".
Proof.
  assert (Hv : "1.0.0" <> "") by discriminate.
  split.
  - exact (proj1 (proj2 (packageRoute_path "@nuxt/kit" None)) (or_introl eq_refl)).
  - exact (proj2 (proj2 (packageRoute_path "@nuxt/kit" (Some "1.0.0"))) "1.0.0" eq_refl Hv).
Defined.

(** X2. Building the package link and parsing it again. For every package
    name none of whose "/"-separated pieces is the token "v", and every
    non-empty version, parsing the [package] parameter of the link built
    with that version gives back the name and the version; parsing the
    parameter of the link built without version gives back the name and a
    null version. *)
Theorem parsedRoute_packageRoute (name ver : string) :
  "v" ∉ split "/" name ->
  ver <> "" ->
  parsedRoute (Some (params_package (packageRoute name (Some ver))))
    = mkParsedRoute name (Some ver) /\
  parsedRoute (Some (params_package (packageRoute name None)))
    = mkParsedRoute name None.
Proof.
  intros Hv Hver. split.
  - destruct ver as [|a ver]; [done|]. simpl.
    rewrite parsedRoute_v_separator by done. by rewrite (join_split "/").
  - simpl. rewrite parsedRoute_no_v by done. by rewrite (join_split "/").
Qed.

Lemma parsedRoute_packageRoute_witness :
  parsedRoute (Some (params_package (packageRoute "@nuxt/kit" (Some "1.0.0"))))
    = mkParsedRoute "@nuxt/kit" (Some "1.0.0") /\
  parsedRoute (Some (params_package (packageRoute "@nuxt/kit" None)))
    = mkParsedRoute "@nuxt/kit" None.
Proof.
  apply (parsedRoute_packageRoute "@nuxt/kit" "1.0.0").
  - decide_closed.
  - discriminate.
Defined.

(** ** The route parser under extension *)

(** X3. Once a version is parsed, further segments do not matter: for
    every segment list whose parse has a version, appending any segments
    leaves the parse result unchanged. *)
Theorem parsedRoute_extension (segs extra : list string) :
  is_Some (version (parsedRoute (Some segs))) ->
  parsedRoute (Some (segs ++ extra)) = parsedRoute (Some segs).
Proof.
  intros [v Hv].
  destruct (segments_cases segs) as [Hno|[(pre & Hpre & ->)|(pre & ver & rest & Hpre & ->)]].
  - by rewrite parsedRoute_no_v in Hv.
  - by rewrite parsedRoute_v_last in Hv.
  - rewrite <- app_assoc. simpl.
    by rewrite !parsedRoute_v_separator.
Qed.

Lemma parsedRoute_extension_witness :
  parsedRoute (Some (["nuxt"; "v"; "4.2.0"] ++ ["v"; "5.0.0"]))
    = parsedRoute (Some ["nuxt"; "v"; "4.2.0"]).
Proof.
  apply (parsedRoute_extension ["nuxt"; "v"; "4.2.0"] ["v"; "5.0.0"]).
  vm_compute. by eexists.
Defined.

(** ** The organization and the header text *)

Lemma orgName_Some_inv (name org : string) :
  orgName name = Some org ->
  org <> "" /\ includes org "/" = false /\
  exists rest, name = "@" +:+ org +:+ "/" +:+ rest.
Proof.
  intros Horg.
  destruct (name_cases name)
    as [Hat|[(s & Hs & ->)|[(rest & ->)|(org' & rest & Hne & Hslash & ->)]]].
  - by rewrite orgName_unscoped in Horg.
  - by rewrite orgName_no_slash in Horg.
  - by rewrite orgName_empty_scope in Horg.
  - rewrite orgName_scoped in Horg by done. injection Horg as <-. eauto.
Qed.

(** X4. The organization, when there is one, is a proper scope of the
    name: whenever the extraction gives a string, that string is not
    empty, has no "/", and the package name is "@", that string, "/" and
    a remainder. *)
Theorem orgName_sound (name org : string) :
  orgName name = Some org ->
  org <> "" /\ includes org "/" = false /\
  exists rest, name = "@" +:+ org +:+ "/" +:+ rest.
Proof. apply orgName_Some_inv. Qed.

Lemma orgName_sound_witness :
  "nuxt" <> "" /\ includes "nuxt" "/" = false /\
  exists rest, "@nuxt/kit" = "@" +:+ "nuxt" +:+ "/" +:+ rest.
Proof. exact (orgName_sound "@nuxt/kit" "nuxt" eq_refl). Defined.

Lemma startsWith_app (p s : string) : startsWith (p +:+ s) p = true.
Proof.
  induction p as [|a p IH]; [by destruct s|].
  rewrite string_app_cons. simpl. by rewrite Ascii.eqb_refl, IH.
Qed.

Lemma string_drop_app (p s : string) : string_drop (String.length p) (p +:+ s) = s.
Proof. induction p as [|a p IH]; [done|]. by rewrite string_app_cons. Qed.

Lemma replace_prefix (p s repl : string) : replace (p +:+ s) p repl = repl +:+ s.
Proof.
  assert (Hstep : forall t, replace t p repl =
            if startsWith t p then repl +:+ string_drop (String.length p) t
            else match t with
                 | EmptyString => EmptyString
                 | String a t' => String a (replace t' p repl)
                 end) by (by intros [|a t]).
  by rewrite Hstep, startsWith_app, string_drop_app.
Qed.

(** X5. The header link always spells the package name: for every package
    name, the scope piece followed by the name piece is the package name
    itself; and for a scoped name "@org/rest" the two pieces are "@org/"
    and "rest". *)
Theorem header_text (name : string) :
  headerScope name +:+ headerName name = name /\
  (forall org rest, org <> "" -> includes org "/" = false ->
     name = "@" +:+ org +:+ "/" +:+ rest ->
     headerScope name = "@" +:+ org +:+ "/" /\ headerName name = rest).
Proof.
  assert (Hscoped : forall org rest, org <> "" -> includes org "/" = false ->
            name = "@" +:+ org +:+ "/" +:+ rest ->
            headerScope name = "@" +:+ org +:+ "/" /\ headerName name = rest).
  { intros org rest Hne Hslash ->. unfold headerScope, headerName.
    rewrite orgName_scoped by done.
    assert (Ht : truthy_opt (Some org) = true) by (by destruct org).
    rewrite Ht. unfold interpolate. simpl default. split; [done|].
    assert (Heq : "@" +:+ org +:+ "/" +:+ rest = ("@" +:+ org +:+ "/") +:+ rest)
      by (by rewrite !string_app_assoc).
    rewrite Heq. apply (replace_prefix _ rest ""). }
  split; [|exact Hscoped].
  destruct (orgName name) as [org|] eqn:Horg.
  - apply orgName_Some_inv in Horg as (Hne & Hslash & rest & Hname).
    destruct (Hscoped org rest Hne Hslash Hname) as [-> ->].
    rewrite Hname. by rewrite !string_app_assoc.
  - unfold headerScope, headerName. by rewrite Horg.
Qed.

Lemma header_text_witness :
  headerScope "@nuxt/kit" = "@" +:+ "nuxt" +:+ "/" /\ headerName "@nuxt/kit" = "kit".
Proof.
  assert (Hne : "nuxt" <> "") by discriminate.
  exact (proj2 (header_text "@nuxt/kit") "nuxt" "kit" Hne eq_refl eq_refl).
Defined.

(** X6. The organization of a scoped route. For every route whose first
    segment is "@" followed by a non-empty scope without "/", with at
    least one more segment before the separator, the organization
    extracted from the parsed package name is that scope, with or without
    a version in the route. *)
Theorem orgName_parsedRoute (org second : string) (more : list string)
    (ver : string) (rest : list string) :
  org <> "" -> includes org "/" = false ->
  "v" ∉ ("@" +:+ org) :: second :: more ->
  orgName (packageName (parsedRoute
             (Some ((("@" +:+ org) :: second :: more) ++ "v" :: ver :: rest)))) = Some org /\
  orgName (packageName (parsedRoute (Some (("@" +:+ org) :: second :: more)))) = Some org.
Proof.
  intros Hne Hslash Hv.
  rewrite parsedRoute_v_separator, parsedRoute_no_v by done. simpl packageName.
  change (join "/" (("@" +:+ org) :: second :: more))
    with (("@" +:+ org) +:+ "/" +:+ join "/" (second :: more)).
  rewrite string_app_assoc. split; by apply orgName_scoped.
Qed.

Lemma orgName_parsedRoute_witness :
  orgName (packageName (parsedRoute
             (Some ((("@" +:+ "nuxt") :: "kit" :: []) ++ "v" :: "1.0.0" :: [])))) = Some "nuxt" /\
  orgName (packageName (parsedRoute (Some (("@" +:+ "nuxt") :: "kit" :: [])))) = Some "nuxt".
Proof.
  apply (orgName_parsedRoute "nuxt" "kit" [] "1.0.0" []).
  - discriminate.
  - reflexivity.
  - decide_closed.
Defined.

(** ** The version across the header, the fetch, the body and the SEO strings *)

(** X7. The header and the body agree on the version. For every version,
    package metadata, fetch status and payload: the header shows neither
    the version selector nor the version badge exactly when the body shows
    the no-version state; and the selector is shown only when the package
    metadata has arrived with both its versions and its dist-tags. *)
Theorem headerVersion_renderState (version : option string)
    (pkg : option PackageSummary) (status : FetchStatus)
    (payload : option PackageDependenciesResponse) :
  (headerVersion version pkg = None <->
     renderState version status payload = Some NoVersion) /\
  (headerVersion version pkg = Some VersionSelector ->
     exists p vs tags, pkg = Some p /\ pkg_versions p = Some vs /\
       pkg_dist_tags p = Some tags).
Proof.
  unfold headerVersion, renderState.
  destruct (truthy_opt version) eqn:Hv; simpl.
  - split.
    + split.
      * by destruct (present _ && present _).
      * by destruct status, payload.
    + destruct pkg as [[[vs|] [tags|]]|]; simpl; try done.
      intros _. by eexists _, vs, tags.
  - split; [done|]. done.
Qed.

Lemma headerVersion_renderState_witness :
  exists p vs tags,
    Some (mkPackageSummary (Some ["4.2.0"]) (Some [("latest", "4.2.0")])) = Some p /\
    pkg_versions p = Some vs /\ pkg_dist_tags p = Some tags.
Proof.
  exact (proj2 (headerVersion_renderState (Some "4.2.0")
                  (Some (mkPackageSummary (Some ["4.2.0"]) (Some [("latest", "4.2.0")])))
                  success None) eq_refl).
Defined.


(** X9. The SEO strings follow the request. For every route: when the body
    shows the no-version state, the title, the description and the
    canonical URL are the generic copy; and when a request is issued for a
    route with a non-empty package name, the request URL and the canonical
    URL end with the same "{packageName}/v/{version}" path. *)
Theorem seo_follows_fetch (path : option (list string))
    (status : FetchStatus) (payload : option PackageDependenciesResponse) :
  (renderState (version (parsedRoute path)) status payload = Some NoVersion ->
     pageTitle (packageName (parsedRoute path)) (version (parsedRoute path))
       = "Dependencies - npmx" /\
     pageDescription (packageName (parsedRoute path)) (version (parsedRoute path))
       = "Browse package dependencies" /\
     canonicalUrl (packageName (parsedRoute path)) (version (parsedRoute path))
       = "https://npmx.dev/dependencies") /\
  (forall url, url ∈ dependenciesFetch path ->
     packageName (parsedRoute path) <> "" ->
     exists suffix,
       url = "/api/registry/dependencies/" +:+ suffix /\
       canonicalUrl (packageName (parsedRoute path)) (version (parsedRoute path))
         = "https://npmx.dev/dependencies/" +:+ suffix).
Proof.
  split.
  - intros Hstate.
    assert (Hv : truthy_opt (version (parsedRoute path)) = false).
    { unfold renderState in Hstate.
      destruct (truthy_opt (version (parsedRoute path))); [|done].
      by destruct status, payload. }
    unfold pageTitle, pageDescription, canonicalUrl.
    by rewrite Hv, andb_false_r.
  - intros url Hurl Hname.
    unfold dependenciesFetch, useFetch in Hurl. simpl immediate in Hurl.
    destruct (truthy_opt (version (parsedRoute path))) eqn:Hv;
      [|by apply elem_of_nil in Hurl].
    apply list_elem_of_singleton in Hurl as ->.
    exists (packageName (parsedRoute path) +:+ "/v/"
              +:+ interpolate (version (parsedRoute path))).
    split; [done|].
    unfold canonicalUrl. rewrite Hv.
    by destruct (packageName (parsedRoute path)).
Qed.

Lemma seo_follows_fetch_witness :
  (pageTitle (packageName (parsedRoute (Some ["nuxt"]))) (version (parsedRoute (Some ["nuxt"])))
     = "Dependencies - npmx" /\
   pageDescription (packageName (parsedRoute (Some ["nuxt"])))
                   (version (parsedRoute (Some ["nuxt"])))
     = "Browse package dependencies" /\
   canonicalUrl (packageName (parsedRoute (Some ["nuxt"]))) (version (parsedRoute (Some ["nuxt"])))
     = "https://npmx.dev/dependencies") /\
  exists suffix,
    "/api/registry/dependencies/nuxt/v/4.2.0" = "/api/registry/dependencies/" +:+ suffix /\
    canonicalUrl (packageName (parsedRoute (Some ["nuxt"; "v"; "4.2.0"])))
                 (version (parsedRoute (Some ["nuxt"; "v"; "4.2.0"])))
      = "https://npmx.dev/dependencies/" +:+ suffix.
Proof.
  assert (Hin : "/api/registry/dependencies/nuxt/v/4.2.0"
                  ∈ dependenciesFetch (Some ["nuxt"; "v"; "4.2.0"]))
    by (vm_compute; apply list_elem_of_here).
  assert (Hname : packageName (parsedRoute (Some ["nuxt"; "v"; "4.2.0"])) <> "")
    by (vm_compute; discriminate).
  split.
  - exact (proj1 (seo_follows_fetch (Some ["nuxt"]) error None) eq_refl).
  - exact (proj2 (seo_follows_fetch (Some ["nuxt"; "v"; "4.2.0"]) success None) _ Hin Hname).
Defined.


(** ** The two dependency lists of the body *)




(** X11. No entry is lost or invented by the sort, whatever the comparison
    function does: for every comparison function, payload and mapping, the
    dev-dependency list is a permutation of the entries of the mapping, so
    the count shown in the section title is the number of entries; and the
    list is empty, so that the section is hidden, exactly when the payload
    or the mapping is absent or the mapping has no entry. *)
Theorem devDependencies_entries (compare : string -> string -> Z)
    (payload : option PackageDependenciesResponse) :
  (forall d entries, payload = Some d -> resp_devDependencies d = Some entries ->
     Permutation (devDependencies compare payload) entries /\
     length (devDependencies compare payload) = length entries) /\
  (devDependencies compare payload = [] <->
     payload = None \/
     exists d, payload = Some d /\
       (resp_devDependencies d = None \/ resp_devDependencies d = Some [])).
Proof.
  split.
  - intros d entries -> Hentries. simpl. rewrite Hentries.
    pose proof (sort_Permutation (fun '(a, _) '(b, _) => compare a b) entries) as Hperm.
    split; [done|]. by apply Permutation_length.
  - destruct payload as [d|]; simpl; [|split; [by left|done]].
    destruct (resp_devDependencies d) as [entries|] eqn:Hentries.
    + split.
      * intros Hnil. right. exists d. split; [done|]. right.
        rewrite Hentries. f_equal.
        apply Permutation_nil_r. rewrite <- Hnil. symmetry.
        apply sort_Permutation.
      * intros [?|(d' & [= <-] & [?|Hnil])]; [done|congruence|].
        rewrite Hentries in Hnil. by injection Hnil as ->.
    + split; [|done]. intros _. right. exists d. auto.
Qed.

Lemma devDependencies_entries_witness :
  Permutation
    (devDependencies (fun _ _ => 1)
       (Some (mkResponse 0 [] (Some [("b", "1.0.0"); ("a", "2.0.0")]))))
    [("b", "1.0.0"); ("a", "2.0.0")] /\
  length (devDependencies (fun _ _ => 1)
            (Some (mkResponse 0 [] (Some [("b", "1.0.0"); ("a", "2.0.0")])))) = 2%nat.
Proof.
  exact (proj1 (devDependencies_entries (fun _ _ => 1)
                  (Some (mkResponse 0 [] (Some [("b", "1.0.0"); ("a", "2.0.0")]))))
           _ _ eq_refl eq_refl).
Defined.



Lemma sort_sorted_id {A : Type} (comparefn : A -> A -> Z) (l : list A) :
  StronglySorted (fun a b => comparefn a b <= 0) l -> sort comparefn l = l.
Proof.
  induction 1 as [|x l _ IH Hall]; [done|].
  simpl. rewrite IH. destruct l as [|y l]; [done|].
  apply Forall_cons in Hall as [Hxy _]. simpl.
  by destruct (Z.leb_spec (comparefn x y) 0); [|lia].
Qed.

(** X13. A mapping that is already in order is left as it is: when the
    entries of the mapping are sorted ascending by name under the
    comparison function, the dev-dependency list is the list of entries
    in the same order. *)
Theorem devDependencies_sorted_input (compare : string -> string -> Z)
    (d : PackageDependenciesResponse) (entries : list (string * string)) :
  resp_devDependencies d = Some entries ->
  StronglySorted (name_le compare) entries ->
  devDependencies compare (Some d) = entries.
Proof.
  intros Hentries Hsorted. simpl. rewrite Hentries.
  apply sort_sorted_id.
  eapply StronglySorted_weaken; [|exact Hsorted]. by intros [a va] [b vb].
Qed.

Lemma devDependencies_sorted_input_witness :
  devDependencies codeCompare
    (Some (mkResponse 0 [] (Some [("a", "2.0.0"); ("b", "1.0.0")])))
  = [("a", "2.0.0"); ("b", "1.0.0")].
Proof.
  apply (devDependencies_sorted_input codeCompare
           (mkResponse 0 [] (Some [("a", "2.0.0"); ("b", "1.0.0")]))
           [("a", "2.0.0"); ("b", "1.0.0")] eq_refl).
  repeat constructor. vm_compute. discriminate.
Defined.

(** ** What a rendered block implies *)

(** X14. Each block of the body tells the state of the page. For every
    version, status and payload: the content block is rendered exactly
    when the version is non-empty, the status is success and the payload
    is present (so the block never reads an absent payload); the loading
    block exactly when the version is non-empty and the status is
    pending; the error block exactly when the version is non-empty and
    the status is error. *)
Theorem renderState_inversion (version : option string) (status : FetchStatus)
    (payload : option PackageDependenciesResponse) :
  (renderState version status payload = Some Content <->
     truthy_opt version = true /\ status = success /\ is_Some payload) /\
  (renderState version status payload = Some Loading <->
     truthy_opt version = true /\ status = pending) /\
  (renderState version status payload = Some FetchError <->
     truthy_opt version = true /\ status = error).
Proof.
  unfold renderState.
  destruct (truthy_opt version), status, payload as [d|]; simpl;
    split_and!; split; try done; try (by intros (? & ? & ?)); try (by intros [? ?]).
Qed.

Lemma renderState_inversion_witness :
  truthy_opt (Some "4.2.0") = true /\ success = success /\
  is_Some (Some (mkResponse 0 [] None)).
Proof.
  exact (proj1 (proj1 (renderState_inversion (Some "4.2.0") success
                         (Some (mkResponse 0 [] None)))) eq_refl).
Defined.

(** X15. The links of the two failure states. For every package name,
    version, status and payload: in the error state the link back to the
    package carries the version, its [package] parameter being the pieces
    of the name followed by "v" and the version; in the no-version state
    the header link, built with the version, is the same route as the
    link of the message, built without version, and its parameter is just
    the pieces of the name. *)
Theorem packageRoute_in_state (name : string) (version : option string)
    (status : FetchStatus) (payload : option PackageDependenciesResponse) :
  (renderState version status payload = Some FetchError ->
     exists v, version = Some v /\ v <> "" /\
       params_package (packageRoute name version) = split "/" name ++ ["v"; v]) /\
  (renderState version status payload = Some NoVersion ->
     packageRoute name version = packageRoute name None /\
     params_package (packageRoute name version) = split "/" name).
Proof.
  unfold renderState. split.
  - destruct (truthy_opt version) eqn:Hv; [|done]. intros _.
    apply truthy_opt_true in Hv as (v & -> & Hne).
    exists v. split_and!; [done..|]. by destruct v.
  - destruct (truthy_opt version) eqn:Hv.
    + by destruct status, payload.
    + intros _. by apply truthy_opt_false in Hv as [-> | ->].
Qed.

Lemma packageRoute_in_state_witness :
  (exists v, Some "4.2.0" = Some v /\ v <> "" /\
     params_package (packageRoute "nuxt" (Some "4.2.0")) = split "/" "nuxt" ++ ["v"; v]) /\
  packageRoute "nuxt" (Some "") = packageRoute "nuxt" None /\
  params_package (packageRoute "nuxt" (Some "")) = split "/" "nuxt".
Proof.
  split.
  - exact (proj1 (packageRoute_in_state "nuxt" (Some "4.2.0") error None) eq_refl).
  - exact (proj2 (packageRoute_in_state "nuxt" (Some "") pending None) eq_refl).
Defined.
